(** * Physical-position dashboard: normalisation and aggregation pipeline

    A shallow embedding of [main.py].  The script reads a CSV of position
    records, coerces thirteen columns to numbers, masks the business-unit
    column with sequential pseudonyms, filters by business unit and flow
    month, and derives sums, means and three textual insights.

    The pandas operations the script calls are written out as functions on
    lists of rows.  Numeric cells are IEEE binary64 values ([spec_float] with
    precision 53 and maximal exponent 1024), the dict of pseudonyms is a
    [gmap], a missing value (NaN, NaT) is [None], and the [IndexError] that
    [.iloc[0]] can raise is a value of an explicit result type.

    Not modelled: reading the file and trimming the column names (columns
    are record fields here), the widgets that deliver the selection, the
    charts, the formatting of numbers, and the display column
    [Flow Month Label]. *)

From Stdlib Require Import ZArith Ascii String SpecFloat.
From stdpp Require Import base decidable option list strings gmap fin_maps pretty sorting.

Local Open Scope Z_scope.

(** ** Binary64 numbers *)

Module F64.

Definition prec : Z := 53.
Definition emax : Z := 1024.

Definition add : spec_float → spec_float → spec_float := SFadd prec emax.
Definition div : spec_float → spec_float → spec_float := SFdiv prec emax.
Definition ltb : spec_float → spec_float → bool := SFltb.
Definition leb : spec_float → spec_float → bool := SFleb.

Definition zero : spec_float := S754_zero false.
Definition nan : spec_float := S754_nan.
Definition inf : spec_float := S754_infinity false.

(** The binary64 value nearest to the integer [n]. *)
Definition of_Z (n : Z) : spec_float := binary_normalize prec emax n 0 false.

Definition is_nan (x : spec_float) : bool :=
  match x with S754_nan => true | _ => false end.

Definition is_finite (x : spec_float) : bool :=
  match x with S754_zero _ | S754_finite _ _ _ => true | _ => false end.

(** The binary64 value nearest to [(-1)^neg * m * 10^e], for [0 <= m]:
    exact integers are rounded once, proper fractions are divided with the
    remainder kept as the rounding location.  (The scanner of pandas keeps
    17 significant digits and scales by a power of ten; for literals of up
    to 15 digits and a decimal exponent within 22 of zero that is this
    value, for longer ones it can differ in the last place.) *)
Definition of_decimal (neg : bool) (m e : Z) : spec_float :=
  match m with
  | Z0 => S754_zero neg
  | Zneg _ => S754_nan
  | Zpos _ =>
      if 0 <=? e then
        binary_normalize prec emax (if neg then - (m * 10 ^ e) else m * 10 ^ e) 0 neg
      else
        let '(mz, ez, lz) := SFdiv_core_binary prec emax m 0 (10 ^ (- e)) 0 in
        binary_round_aux prec emax neg mz ez lz
  end.

#[global] Instance spec_float_eq_dec : EqDecision spec_float.
Proof. solve_decision. Defined.

End F64.

Abbreviation float := spec_float.

(** ** Text of a cell *)

Definition ord (c : ascii) : Z := Z.of_N (N_of_ascii c).

(** [str.isspace] on the code points below 256: tab, line feed, vertical
    tab, form feed, carriage return, the four separators 28..31, the space,
    and the next-line and no-break-space characters 133 and 160. *)
Definition isspace (c : ascii) : bool :=
  ((9 <=? ord c) && (ord c <=? 13)) || ((28 <=? ord c) && (ord c <=? 32))
  || (ord c =? 133) || (ord c =? 160).

Definition isdigit (c : ascii) : bool := (48 <=? ord c) && (ord c <=? 57).

Definition chars : string → list ascii := list_ascii_of_string.
Definition text : list ascii → string := string_of_list_ascii.

(** [s.replace(c, '')] for a one-character pattern [c]. *)
Definition remove_char (c : ascii) (s : list ascii) : list ascii :=
  filter (λ x, x ≠ c) s.

Fixpoint lstrip (s : list ascii) : list ascii :=
  match s with
  | c :: s' => if isspace c then lstrip s' else s
  | [] => []
  end.

Definition rstrip (s : list ascii) : list ascii := reverse (lstrip (reverse s)).

(** [s.strip()] *)
Definition strip (s : list ascii) : list ascii := rstrip (lstrip s).

(** ** [pandas.to_numeric(..., errors='coerce')] on one string *)

(** Longest prefix of decimal digits: its value on top of [acc], the number
    of digits read, and the rest of the input. *)
Fixpoint read_digits (acc : Z) (n : Z) (s : list ascii) : Z * Z * list ascii :=
  match s with
  | c :: s' => if isdigit c then read_digits (10 * acc + (ord c - 48)) (n + 1) s'
               else (acc, n, s)
  | [] => (acc, n, [])
  end.

Definition read_sign (s : list ascii) : bool * list ascii :=
  match s with
  | "-"%char :: s' => (true, s')
  | "+"%char :: s' => (false, s')
  | _ => (false, s)
  end.

(** The exponent part: [e] or [E], an optional sign and at least one digit.
    Without a digit the marker is not consumed. *)
Definition read_exponent (s : list ascii) : Z * list ascii :=
  match s with
  | c :: s' =>
      if bool_decide (c = "e"%char ∨ c = "E"%char) then
        let '(neg, s1) := read_sign s' in
        let '(n, k, s2) := read_digits 0 0 s1 in
        if k =? 0 then (0, s) else (if neg then - n else n, s2)
      else (0, s)
  | [] => (0, [])
  end.

(** The blanks the decimal scanner skips: the space and the five control
    characters from tab to carriage return. *)
Definition isspace_ascii (c : ascii) : bool :=
  (ord c =? 32) || ((9 <=? ord c) && (ord c <=? 13)).

Fixpoint skip_blanks (s : list ascii) : list ascii :=
  match s with
  | c :: s' => if isspace_ascii c then skip_blanks s' else s
  | [] => []
  end.

(** The decimal scanner: blanks, sign, integer digits, optional fraction,
    optional exponent, blanks, end of input.  [None] is a parse failure; a
    literal too large for binary64 is one (a range error). *)
Definition strtod (s : list ascii) : option float :=
  let '(neg, s1) := read_sign (skip_blanks s) in
  let '(ip, ni, s2) := read_digits 0 0 s1 in
  let '(m, nf, s3) :=
    match s2 with
    | "."%char :: s2' => read_digits ip 0 s2'
    | _ => (ip, 0, s2)
    end in
  if ni + nf =? 0 then None
  else
    let '(ex, s4) := read_exponent s3 in
    match skip_blanks s4 with
    | [] =>
        let x := F64.of_decimal neg m (ex - nf) in
        if F64.is_finite x then Some x else None
    | _ => None
    end.

Definition lower (c : ascii) : ascii :=
  if (65 <=? ord c) && (ord c <=? 90) then ascii_of_N (N_of_ascii c + 32) else c.

(** The spellings of infinity accepted after the decimal scanner failed. *)
Definition read_infinity (s : list ascii) : option float :=
  let '(neg, body) := read_sign s in
  let body := text (map lower body) in
  if bool_decide (body = "inf"%string ∨ body = "infinity"%string)
  then Some (S754_infinity neg) else None.

(** One element of [to_numeric(errors='coerce')]: the empty string and every
    text that is neither a decimal literal nor an infinity become NaN.
    (pandas keeps a column whose texts are all integers as integers; the
    numbers are those given here as long as they are below 2^53.) *)
Definition to_numeric (s : string) : float :=
  match chars s with
  | [] => F64.nan
  | cs =>
      match strtod cs with
      | Some x => x
      | None => default F64.nan (read_infinity cs)
      end
  end.

(** [fillna(0)] on one element. *)
Definition fillna0 (x : float) : float := if F64.is_nan x then F64.zero else x.

(** ** The table *)

(** The thirteen columns listed in [numeric_cols]. *)
Inductive numeric_col :=
  | Leg_Position | BBL_Position | USG_Position | LBS_Position | M3_Position
  | bbl_product_factor | usg_product_factor | lbs_product_factor
  | m3_product_factor
  | bbl2_factor | lbs2_factor | usg_factor | m3_2_factor.

#[global] Instance numeric_col_eq_dec : EqDecision numeric_col.
Proof. solve_decision. Defined.

Definition numeric_cols : list numeric_col :=
  [ Leg_Position; BBL_Position; USG_Position; LBS_Position; M3_Position;
    bbl_product_factor; usg_product_factor; lbs_product_factor;
    m3_product_factor;
    bbl2_factor; lbs2_factor; usg_factor; m3_2_factor ].

(** One row of the data frame.  The script rewrites columns in place and
    thereby changes their types: [C] is the type of the business-unit
    column, [M] of the flow-month column and [V] of the numeric columns. *)
Record row (C M V : Type) : Type := Row {
  Int_BU : C;
  Flow_Month : M;
  num : numeric_col → V
}.
Arguments Row {C M V} _ _ _.
Arguments Int_BU {C M V} _.
Arguments Flow_Month {C M V} _.
Arguments num {C M V} _ _.

(** A cell as [read_csv] delivers it: its text, or [None] for a missing
    value.  (A column that [read_csv] already inferred as numeric prints back
    to a text denoting the same number, so every cell is kept as text.) *)
Abbreviation cell := (option string).

(** ** [load_data] *)

(** [astype(str)] on one cell: a missing value prints as [nan]. *)
Definition astype_str (c : cell) : string := default "nan"%string c.

(** [.str.replace(',', '').str.replace(' ', '').str.strip()] *)
Definition clean (s : string) : string :=
  text (strip (remove_char " "%char (remove_char ","%char (chars s)))).

(** The body of the loop over [numeric_cols], on one cell of the column. *)
Definition normalize_cell (c : cell) : float :=
  fillna0 (to_numeric (clean (astype_str c))).

(** [load_data]: the loop visits each of the thirteen numeric columns once
    and leaves the other columns alone. *)
Definition load_data {C M} (raw : list (row C M cell)) : list (row C M float) :=
  (λ r, Row (Int_BU r) (Flow_Month r) (λ col, normalize_cell (num r col))) <$> raw.

(** ** Masking the business units *)

Section Pseudonym.
Context `{Countable K}.

(** [Series.unique()]: the distinct values in order of first appearance,
    found with a hash set of the values already seen. *)
Fixpoint unique_from (seen : gset K) (l : list K) : list K :=
  match l with
  | [] => []
  | x :: l' =>
      if decide (x ∈ seen) then unique_from seen l'
      else x :: unique_from ({[x]} ∪ seen) l'
  end.

Definition unique (l : list K) : list K := unique_from ∅ l.

(** [enumerate] *)
Fixpoint enumerate_from {A} (i : nat) (l : list A) : list (nat * A) :=
  match l with
  | [] => []
  | x :: l' => (i, x) :: enumerate_from (S i) l'
  end.

(** [f"BU-{i+1}"] *)
Definition bu_label (i : nat) : string := "BU-" +:+ pretty (i + 1)%nat.

(** The dict comprehension: entries are inserted in order, a later entry
    for the same key would replace an earlier one. *)
Definition add_entry (m : gmap K string) (ik : nat * K) : gmap K string :=
  <[ik.2 := bu_label ik.1]> m.

Definition bu_mapping (unique_bu : list K) : gmap K string :=
  foldl add_entry ∅ (enumerate_from 0 unique_bu).

(** [Series.map(dict)]: a value that is not a key becomes missing. *)
Definition series_map (m : gmap K string) (col : list K) : list (option string) :=
  (λ k, m !! k) <$> col.

(** Lines 32-34 on the business-unit column alone. *)
Definition pseudonyms (col : list K) : list (option string) :=
  series_map (bu_mapping (unique col)) col.

(** Lines 32-34 on the table. *)
Definition pseudonymize {M V} (df : list (row K M V)) : list (row (option string) M V) :=
  let m := bu_mapping (unique (Int_BU <$> df)) in
  (λ r, Row (m !! Int_BU r) (Flow_Month r) (num r)) <$> df.

(** Position of the first occurrence of [c]. *)
Fixpoint first_index (c : K) (l : list K) : option nat :=
  match l with
  | [] => None
  | x :: l' => if decide (x = c) then Some 0%nat else S <$> first_index c l'
  end.

End Pseudonym.

(** ** Flow months *)

(** A calendar date; timestamps of the script all lie at midnight. *)
Record date := Date { year : Z; month : Z; day : Z }.

#[global] Instance date_eq_dec : EqDecision date.
Proof. solve_decision. Defined.

#[global] Instance date_countable : Countable date.
Proof.
  apply (inj_countable' (λ d, (year d, month d, day d))
                        (λ t, Date t.1.1 t.1.2 t.2)).
  by intros [].
Defined.

(** Comparison of two timestamps. *)
Definition date_leb (a b : date) : bool :=
  (year a <? year b) ||
  ((year a =? year b) &&
   ((month a <? month b) || ((month a =? month b) && (day a <=? day b)))).

(** Comparison of the months two dates lie in. *)
Definition month_leb (a b : date) : bool :=
  (year a <? year b) || ((year a =? year b) && (month a <=? month b)).

(** [%m]: [1[0-2]|0[1-9]|[1-9]], tried in this order. *)
Definition read_month (s : list ascii) : option (Z * list ascii) :=
  match s with
  | "1"%char :: c :: s' =>
      if (48 <=? ord c) && (ord c <=? 50) then Some (10 + (ord c - 48), s')
      else Some (1, c :: s')
  | "0"%char :: c :: s' =>
      if (49 <=? ord c) && (ord c <=? 57) then Some (ord c - 48, s') else None
  | c :: s' =>
      if (49 <=? ord c) && (ord c <=? 57) then Some (ord c - 48, s') else None
  | [] => None
  end.

(** [%Y]: exactly four digits. *)
Definition read_year (s : list ascii) : option (Z * list ascii) :=
  match s with
  | a :: b :: c :: d :: s' =>
      if isdigit a && isdigit b && isdigit c && isdigit d
      then Some (1000 * (ord a - 48) + 100 * (ord b - 48) + 10 * (ord c - 48) + (ord d - 48), s')
      else None
  | _ => None
  end.

(** First days of a month that a nanosecond timestamp can hold:
    October 1677 to April 2262. *)
Definition in_bounds (y m : Z) : bool :=
  (12 * 1677 + 9 <=? 12 * y + (m - 1)) && (12 * y + (m - 1) <=? 12 * 2262 + 3).

(** [pd.to_datetime(cell, format="%m/%Y", errors="coerce")]: the first day
    of the month, or [None] (NaT) when the cell is missing, does not match
    the format exactly or is out of bounds. *)
Definition to_datetime (c : cell) : option date :=
  s ← c;
  '(m, s1) ← read_month (chars s);
  match s1 with
  | "/"%char :: s2 =>
      '(y, s3) ← read_year s2;
      match s3 with
      | [] => if in_bounds y m then Some (Date y m 1) else None
      | _ => None
      end
  | _ => None
  end.

(** Line 46 on the table. *)
Definition parse_flow_month {C V} (df : list (row C cell V)) : list (row C (option date) V) :=
  (λ r, Row (Int_BU r) (to_datetime (Flow_Month r)) (num r)) <$> df.

(** ** The filter *)

(** What the sidebar widgets return: the chosen business units and the two
    dates. *)
Record selection := Selection {
  selected_bu : list (option string);
  start_date : date;
  end_date : date
}.

(** A row of the frame that is filtered and aggregated. *)
Abbreviation frow V := (row (option string) (option date) V).

(** The boolean mask of lines 55-59.  A comparison with NaT is false. *)
Definition in_selection {V} (sel : selection) (r : frow V) : bool :=
  bool_decide (Int_BU r ∈ selected_bu sel)
  && match Flow_Month r with
     | Some d => date_leb (start_date sel) d
     | None => false
     end
  && match Flow_Month r with
     | Some d => date_leb d (end_date sel)
     | None => false
     end.

Definition df_filtered {V} (df : list (frow V)) (sel : selection) : list (frow V) :=
  filter (λ r, in_selection sel r = true) df.

(** ** Aggregation *)

(** Order of the group keys: code-point order on labels, time order on
    months. *)
Definition label_le (a b : string) : Prop := String.leb a b = true.
Definition date_le (a b : date) : Prop := date_leb a b = true.

#[global] Instance label_le_dec : RelDecision label_le.
Proof. intros a b. unfold label_le. apply _. Defined.
#[global] Instance date_le_dec : RelDecision date_le.
Proof. intros a b. unfold date_le. apply _. Defined.

(** One row of [bu_group] and of [month_group]. *)
Record bu_total (V : Type) : Type := BuTotal {
  g_Int_BU : string;
  g_M3_Position : V;
  g_BBL_Position : V;
  g_LBS_Position : V
}.
Arguments BuTotal {V} _ _ _ _.
Arguments g_Int_BU {V} _.
Arguments g_M3_Position {V} _.
Arguments g_BBL_Position {V} _.
Arguments g_LBS_Position {V} _.

Record month_total (V : Type) : Type := MonthTotal {
  t_Flow_Month : date;
  t_M3_Position : V;
  t_BBL_Position : V
}.
Arguments MonthTotal {V} _ _ _.

(** The aggregations only add numbers, so they are written once for any
    number type [V] with an addition and a zero; the script runs them on
    binary64. *)
Section Aggregate.
Context {V : Type} (add : V → V → V) (zero : V).

(** [Series.sum()]: the cells added in row order, 0 for no row. *)
Definition col_sum (col : numeric_col) (rows : list (frow V)) : V :=
  foldl add zero ((λ r, num r col) <$> rows).

(** [groupby(key)]: rows with a missing key are dropped, the groups come
    out sorted by key, and each holds its rows in row order. *)
Definition group_rows `{Countable K} (le : relation K) `{!RelDecision le}
    (key : frow V → option K) (rows : list (frow V)) : list (K * list (frow V)) :=
  (λ k, (k, filter (λ r, key r = Some k) rows))
    <$> merge_sort le (unique (omap key rows)).

(** Line 72 *)
Definition bu_group (rows : list (frow V)) : list (bu_total V) :=
  (λ kg, BuTotal kg.1 (col_sum M3_Position kg.2)
                 (col_sum BBL_Position kg.2) (col_sum LBS_Position kg.2))
    <$> group_rows label_le Int_BU rows.

(** Line 79 *)
Definition month_group (rows : list (frow V)) : list (month_total V) :=
  (λ kg, MonthTotal kg.1 (col_sum M3_Position kg.2) (col_sum BBL_Position kg.2))
    <$> group_rows date_le Flow_Month rows.


End Aggregate.



(** ** The script on binary64 *)

Definition fsum : numeric_col → list (frow float) → float := col_sum F64.add F64.zero.

(** [Series.mean()]: NaN for no row, else the sum divided by the count. *)
Definition col_mean (col : numeric_col) (rows : list (frow float)) : float :=
  match rows with
  | [] => F64.nan
  | _ => F64.div (fsum col rows) (F64.of_Z (Z.of_nat (length rows)))
  end.

(** Lines 86-87: one row per factor, with its average. *)
Definition factor_data (rows : list (frow float)) : list (numeric_col * float) :=
  (λ col, (col, col_mean col rows))
    <$> [bbl_product_factor; usg_product_factor; lbs_product_factor].

(** Exceptions of the script. *)
Inductive exn := IndexError.

Inductive result (A : Type) : Type :=
  | Ok (a : A)
  | Raise (e : exn).
Arguments Ok {A} _.
Arguments Raise {A} _.

#[global] Instance result_ret : MRet result := λ A, Ok.
#[global] Instance result_bind : MBind result := λ A B f r,
  match r with Ok a => f a | Raise e => Raise e end.

(** [.iloc[0]] raises on an empty frame. *)
Definition iloc0 {A} (l : list A) : result A :=
  match l with
  | x :: _ => Ok x
  | [] => Raise IndexError
  end.

(** [sort_values("M3-Position", ascending=...)]: rows whose key is NaN go
    last.  Rows with equal keys are kept in one fixed order; the script does
    not ask pandas for a stable sort. *)
Definition m3_le (ascending : bool) (a b : bu_total float) : Prop :=
  if ascending then F64.leb (g_M3_Position a) (g_M3_Position b) = true
  else F64.leb (g_M3_Position b) (g_M3_Position a) = true.

#[global] Instance m3_le_dec asc : RelDecision (m3_le asc).
Proof. intros a b. unfold m3_le. destruct asc; apply _. Defined.

Definition sort_values (ascending : bool) (g : list (bu_total float)) : list (bu_total float) :=
  merge_sort (m3_le ascending) (filter (λ t, F64.is_nan (g_M3_Position t) = false) g)
  ++ filter (λ t, F64.is_nan (g_M3_Position t) = true) g.

(** Lines 97-98 *)
Definition top_bu (g : list (bu_total float)) : result (bu_total float) :=
  iloc0 (sort_values false g).
Definition least_bu (g : list (bu_total float)) : result (bu_total float) :=
  iloc0 (sort_values true g).

(** Lines 103-106: the text handed to [st.info]. *)
Definition net_withdrawal : string := "Overall trend shows **net withdrawal** in M3 positions.".
Definition net_injection : string := "Overall trend shows **net injection** in M3 positions.".

Definition trend_of_sum (s : float) : string :=
  if F64.ltb s F64.zero then net_withdrawal else net_injection.

Definition trend (rows : list (frow float)) : string :=
  trend_of_sum (fsum M3_Position rows).

(** What one run of the script shows, in the order it is computed.  The
    widgets and charts only display these values. *)
Record report := Report {
  r_total_M3 : float;
  r_total_BBL : float;
  r_total_LBS : float;
  r_bu_group : list (bu_total float);
  r_month_group : list (month_total float);
  r_factor_data : list (numeric_col * float);
  r_raw_data : list (frow float);
  r_top_bu : bu_total float;
  r_least_bu : bu_total float;
  r_trend : string
}.

(** Lines 29-46: the frame all filters work on. *)
Definition prepare `{Countable K} (raw : list (row K cell cell)) : list (frow float) :=
  parse_flow_month (pseudonymize (load_data raw)).

(** Lines 55-106 on the prepared frame. *)
Definition render (df : list (frow float)) (sel : selection) : result report :=
  let rows := df_filtered df sel in
  let g := bu_group F64.add F64.zero rows in
  top ← top_bu g;
  least ← least_bu g;
  mret (Report (fsum M3_Position rows) (fsum BBL_Position rows) (fsum LBS_Position rows)
               g (month_group F64.add F64.zero rows) (factor_data rows) rows
               top least (trend rows)).

(** The whole script. *)
Definition main `{Countable K} (raw : list (row K cell cell)) (sel : selection) : result report :=
  render (prepare raw) sel.

(** ** Decimal literals

    What a numeric string is, written independently of the scanner: an
    optional sign, digits with an optional fraction, an optional exponent.
    [literal_text] spells a literal and [literal_value] is the binary64
    number nearest to the decimal number it denotes. *)

Inductive sign_mark := NoSign | Plus | Minus.


Definition sign_neg (s : sign_mark) : bool :=
  match s with Minus => true | _ => false end.

Record literal := Literal {
  l_sign : sign_mark;
  l_int : list ascii;
  l_frac : option (list ascii);
  l_exp : option (bool * sign_mark * list ascii)
}.

Definition all_digits (s : list ascii) : Prop := Forall (λ c, isdigit c = true) s.

Definition frac_digits (L : literal) : list ascii := default [] (l_frac L).





(** The number a string of decimal digits denotes. *)
Definition digits_value_from (acc : Z) (ds : list ascii) : Z :=
  foldl (λ a c, 10 * a + (ord c - 48)) acc ds.
Definition digits_value (ds : list ascii) : Z := digits_value_from 0 ds.

Definition exp_value (L : literal) : Z :=
  match l_exp L with
  | Some (_, sg, ds) => if sign_neg sg then - digits_value ds else digits_value ds
  | None => 0
  end.

Definition literal_value (L : literal) : float :=
  F64.of_decimal (sign_neg (l_sign L))
                 (digits_value (l_int L ++ frac_digits L))
                 (exp_value L - Z.of_nat (length (frac_digits L))).




(** ** A small data set

    Three positions of two business units, as the CSV holds them and as the
    prepared frame holds them. *)

Definition raw_position (bu mo m3 : string) : row cell cell cell :=
  Row (Some bu) (Some mo) (λ col, if decide (col = M3_Position) then Some m3 else None).

Definition position (bu : string) (d : date) (m3 : float) : frow float :=
  Row (Some bu) (Some d) (λ col, if decide (col = M3_Position) then m3 else F64.zero).

Definition undated (bu : string) (m3 : float) : frow float :=
  Row (Some bu) None (λ col, if decide (col = M3_Position) then m3 else F64.zero).

Definition sample_csv : list (row cell cell cell) :=
  [ raw_position "Acme" "01/2024" "1,000";
    raw_position "Acme" "02/2024" "500";
    raw_position "Globex" "01/2024" "-200" ].

Definition sample_frame : list (frow float) :=
  [ position "BU-1" (Date 2024 1 1) (F64.of_Z 1000);
    position "BU-1" (Date 2024 2 1) (F64.of_Z 500);
    position "BU-2" (Date 2024 1 1) (F64.of_Z (-200)) ].

Definition select_all : selection :=
  Selection [Some "BU-1"; Some "BU-2"]%string (Date 2024 1 1) (Date 2024 2 1).

Definition select_none : selection :=
  Selection [] (Date 2024 1 1) (Date 2024 2 1).

Definition select_second : selection :=
  Selection [Some "BU-2"]%string (Date 2024 1 1) (Date 2024 2 1).

(** Three positions whose volumes do not add exactly in binary64. *)
Definition large_csv : list (row cell cell cell) :=
  [ raw_position "Acme" "01/2024" "1e16";
    raw_position "Globex" "01/2024" "1";
    raw_position "Acme" "02/2024" "-1e16" ].


(** ** Sidebar defaults and the display column *)

Definition date_min (a b : date) : date := if date_leb a b then a else b.
Definition date_max (a b : date) : date := if date_leb a b then b else a.

(** [Series.min()] and [Series.max()] of the flow months (lines 48-49):
    NaT is skipped, and the result is NaT when no row is dated. *)
Definition pick_date (pick : date → date → date) (ds : list date) : option date :=
  match ds with
  | [] => None
  | d :: ds' => Some (foldl pick d ds')
  end.

Definition min_date {C V} (df : list (row C (option date) V)) : option date :=
  pick_date date_min (omap Flow_Month df).
Definition max_date {C V} (df : list (row C (option date) V)) : option date :=
  pick_date date_max (omap Flow_Month df).

(** The options and the default of the multiselect (line 43). *)
Definition bu_options {M V} (df : list (row (option string) M V)) : list (option string) :=
  unique (Int_BU <$> df).

(** [%b] *)
Definition month_abbr (m : Z) : string :=
  match m with
  | 1 => "Jan" | 2 => "Feb" | 3 => "Mar" | 4 => "Apr" | 5 => "May" | 6 => "Jun"
  | 7 => "Jul" | 8 => "Aug" | 9 => "Sep" | 10 => "Oct" | 11 => "Nov" | 12 => "Dec"
  | _ => ""
  end.

(** [strftime('%b %Y')] on a timestamp within bounds, whose year has four
    digits. *)
Definition strftime_b_Y (d : date) : string :=
  month_abbr (month d) +:+ " " +:+ pretty (year d).

(** Line 61: the column [Flow Month Label]; NaT gives a missing label. *)
Definition flow_month_label {V} (rows : list (frow V)) : list (option string) :=
  (λ r : frow V, strftime_b_Y <$> Flow_Month r) <$> rows.

(** The text [MM/YYYY] of a month, as the CSV writes it. *)
Definition digit_char (d : Z) : ascii := ascii_of_N (Z.to_N (48 + d)).

Definition month_year_text (y m : Z) : string :=
  text [ digit_char (m / 10); digit_char (m mod 10); "/"%char;
         digit_char (y / 1000); digit_char (y / 100 mod 10);
         digit_char (y / 10 mod 10); digit_char (y mod 10) ].

(** Lines 32-46 on one row, given the dict. *)
Definition prepare_row `{Countable K} {V} (m : gmap K string) (r : row K cell V) : frow V :=
  Row (m !! Int_BU r) (to_datetime (Flow_Month r)) (num r).

(** The order in which a float is compared, for numbers other than NaN:
    class by sign and infinity, then exponent, then mantissa. *)
Definition float_rank (x : float) : Z * Z * Z :=
  match x with
  | S754_infinity true => (-2, 0, 0)
  | S754_finite true m e => (-1, - e, - Z.pos m)
  | S754_zero _ => (0, 0, 0)
  | S754_finite false m e => (1, e, Z.pos m)
  | S754_infinity false => (2, 0, 0)
  | S754_nan => (3, 0, 0)
  end.

Definition rank_le (a b : Z * Z * Z) : Prop :=
  a.1.1 < b.1.1 ∨ (a.1.1 = b.1.1 ∧ (a.1.2 < b.1.2 ∨ (a.1.2 = b.1.2 ∧ a.2 ≤ b.2))).

(** The two date comparisons of the mask, on a flow month that may be
    NaT. *)
Definition in_range (s e : date) (o : option date) : bool :=
  match o with
  | Some d => date_leb s d && date_leb d e
  | None => false
  end.

(** What a merge sort keeps on its stack: sorted runs of elements that all
    satisfy [P]. *)
Definition sorted_run {A} (R : relation A) (P : A → Prop) (o : option (list A)) : Prop :=
  match o with
  | Some l => Sorted R l ∧ Forall P l
  | None => True
  end.

(** * Properties *)

(** ** Filtering *)

Lemma date_leb_month_leb a b : date_leb a b = true → month_leb a b = true.
Proof.
  unfold date_leb, month_leb. intros Hab.
  repeat match goal with
         | H : _ || _ = true |- _ => apply orb_true_iff in H as [H|H]
         | H : _ && _ = true |- _ => apply andb_true_iff in H as [? ?]
         end;
    repeat match goal with
           | H : (_ <? _) = true |- _ => apply Z.ltb_lt in H
           | H : (_ =? _) = true |- _ => apply Z.eqb_eq in H
           | H : (_ <=? _) = true |- _ => apply Z.leb_le in H
           end;
    apply orb_true_iff.
  - left. by apply Z.ltb_lt.
  - right. apply andb_true_iff. split; [by apply Z.eqb_eq | apply Z.leb_le; lia].
  - right. apply andb_true_iff. split; [by apply Z.eqb_eq | apply Z.leb_le; lia].
Qed.

Lemma in_selection_spec {V} (sel : selection) (r : frow V) :
  in_selection sel r = true ↔
  Int_BU r ∈ selected_bu sel ∧
  ∃ d, Flow_Month r = Some d ∧
       date_leb (start_date sel) d = true ∧ date_leb d (end_date sel) = true.
Proof.
  unfold in_selection. rewrite !andb_true_iff, bool_decide_eq_true.
  destruct (Flow_Month r) as [d|]; split.
  - intros [[? ?] ?]. eauto.
  - intros (? & d' & [= <-] & ? & ?). done.
  - intros [[_ ?] _]. done.
  - intros (_ & d' & ? & _). done.
Qed.

Lemma elem_of_df_filtered {V} (df : list (frow V)) sel r :
  r ∈ df_filtered df sel ↔ r ∈ df ∧ in_selection sel r = true.
Proof. unfold df_filtered. rewrite list_elem_of_filter. tauto. Qed.

Lemma df_filtered_nil_selection {V} (df : list (frow V)) s e :
  df_filtered df (Selection [] s e) = [].
Proof.
  induction df as [|r df IH]; [done|].
  unfold df_filtered in *. rewrite filter_cons, IH.
  case_decide as Hr; [|done].
  apply in_selection_spec in Hr as [Hin _]. by apply elem_of_nil in Hin.
Qed.

(** C1. Whatever the selection, the filtered frame is a sub-sequence of the
    frame it was taken from, and each of its rows has a selected business
    unit and a valid flow month between the start and the end of the
    selection, both included; a row whose flow month is NaT never passes. *)
Theorem filtered_rows_satisfy_selection {V} (df : list (frow V)) (sel : selection)
    (r : frow V) (Hr : r ∈ df_filtered df sel) :
  df_filtered df sel `sublist_of` df ∧
  r ∈ df ∧
  Int_BU r ∈ selected_bu sel ∧
  Flow_Month r ≠ None ∧
  ∃ d, Flow_Month r = Some d ∧
       date_leb (start_date sel) d = true ∧ date_leb d (end_date sel) = true ∧
       month_leb (start_date sel) d = true ∧ month_leb d (end_date sel) = true.
Proof.
  apply elem_of_df_filtered in Hr as [Hdf Hsel].
  apply in_selection_spec in Hsel as (Hbu & d & Hd & Hlo & Hhi).
  split; [apply sublist_filter|].
  split; [done|]. split; [done|]. split; [by rewrite Hd|].
  exists d. repeat split; auto using date_leb_month_leb.
Qed.

(** The filter also keeps every row that satisfies the mask. *)
Lemma df_filtered_complete {V} (df : list (frow V)) sel r d :
  r ∈ df → Int_BU r ∈ selected_bu sel → Flow_Month r = Some d →
  date_leb (start_date sel) d = true → date_leb d (end_date sel) = true →
  r ∈ df_filtered df sel.
Proof.
  intros. apply elem_of_df_filtered. split; [done|].
  apply in_selection_spec. eauto 6.
Qed.

Lemma filtered_rows_witness :
  df_filtered sample_frame select_second `sublist_of` sample_frame ∧
  position "BU-2" (Date 2024 1 1) (F64.of_Z (-200)) ∈ sample_frame ∧
  Some "BU-2"%string ∈ selected_bu select_second ∧
  Some (Date 2024 1 1) ≠ None ∧
  ∃ d, Some (Date 2024 1 1) = Some d ∧
       date_leb (start_date select_second) d = true ∧
       date_leb d (end_date select_second) = true ∧
       month_leb (start_date select_second) d = true ∧
       month_leb d (end_date select_second) = true.
Proof.
  apply (filtered_rows_satisfy_selection sample_frame select_second
           (position "BU-2" (Date 2024 1 1) (F64.of_Z (-200)))).
  apply elem_of_df_filtered. split; [|reflexivity].
  do 2 apply list_elem_of_further. apply list_elem_of_here.
Defined.

(** ** Empty selections and the insights *)

Lemma group_rows_nil {V} `{Countable K} (le : relation K) `{!RelDecision le}
    (key : frow V → option K) :
  group_rows le key [] = [].
Proof. reflexivity. Qed.

Lemma bu_group_nil {V} (add : V → V → V) zero : bu_group add zero [] = [].
Proof. reflexivity. Qed.

Lemma sort_values_nil asc : sort_values asc [] = [].
Proof. reflexivity. Qed.

(** C2. With a selection that names no business unit the filtered frame and
    [bu_group] are empty, the average of each factor is NaN, and both
    [.iloc[0]] of lines 97-98 raise [IndexError], which ends the run: the
    script shows no insight at all instead of an absent one. *)
Theorem empty_selection_raises (df : list (frow float)) (s e : date) :
  let rows := df_filtered df (Selection [] s e) in
  rows = [] ∧
  bu_group F64.add F64.zero rows = [] ∧
  top_bu (bu_group F64.add F64.zero rows) = Raise IndexError ∧
  least_bu (bu_group F64.add F64.zero rows) = Raise IndexError ∧
  render df (Selection [] s e) = Raise IndexError.
Proof.
  cbv zeta. unfold render. rewrite df_filtered_nil_selection. done.
Qed.

(** The same on the three sample positions read from their CSV text. *)
Example sample_none_selected : main sample_csv select_none = Raise IndexError.
Proof. vm_compute. reflexivity. Qed.

(** ** The net direction *)


Lemma net_labels_differ : net_injection ≠ net_withdrawal.
Proof. discriminate. Qed.





(** ** Average factors *)



(** ** Pseudonyms *)

Section PseudonymFacts.
Context `{Countable K}.
Implicit Types (seen : gset K) (l u col : list K) (c d : K).

Lemma elem_of_unique_from seen l c :
  c ∈ unique_from seen l ↔ c ∈ l ∧ c ∉ seen.
Proof.
  revert seen. induction l as [|x l IH]; intros seen; simpl.
  - split; [by intros ?%elem_of_nil|by intros [?%elem_of_nil _]].
  - case_decide as Hx.
    + rewrite IH, elem_of_cons. clear IH. intuition congruence.
    + rewrite !elem_of_cons, IH, elem_of_union, elem_of_singleton. clear IH.
      destruct (decide (c = x)); intuition congruence.
Qed.

Lemma NoDup_unique_from seen l : NoDup (unique_from seen l).
Proof.
  revert seen. induction l as [|x l IH]; intros seen; simpl.
  - constructor.
  - case_decide; [apply IH|].
    constructor; [|apply IH].
    rewrite elem_of_unique_from, elem_of_union, elem_of_singleton. clear IH.
    intuition congruence.
Qed.

Lemma first_index_is_Some c l : c ∈ l → is_Some (first_index c l).
Proof.
  induction 1 as [|x y l Hc [p Hp]]; simpl.
  - rewrite decide_True by done. eauto.
  - case_decide; [eauto|]. rewrite Hp. eauto.
Qed.

Lemma first_index_cons_ne x c l :
  x ≠ c → first_index c (x :: l) = S <$> first_index c l.
Proof. intros. simpl. by rewrite decide_False. Qed.

(** Two entries of [unique] stand in the order of their first rows. *)
Lemma unique_from_order seen l (i j : nat) c d :
  (i < j)%nat →
  unique_from seen l !! i = Some c → unique_from seen l !! j = Some d →
  ∃ p q : nat, first_index c l = Some p ∧ first_index d l = Some q ∧ (p < q)%nat.
Proof.
  revert seen i j. induction l as [|x l IH]; intros seen i j Hij; [done|].
  cbn [unique_from]. case_decide as Hx.
  - intros Hc Hd.
    destruct (IH _ _ _ Hij Hc Hd) as (p & q & Hp & Hq & Hpq).
    apply list_elem_of_lookup_2, elem_of_unique_from in Hc as [_ Hc].
    apply list_elem_of_lookup_2, elem_of_unique_from in Hd as [_ Hd].
    exists (S p), (S q).
    rewrite !first_index_cons_ne, Hp, Hq by set_solver.
    repeat split; [done..|lia].
  - destruct j as [|j]; [lia|]. destruct i as [|i]; simpl.
    + intros [= <-] Hd.
      apply list_elem_of_lookup_2, elem_of_unique_from in Hd as [Hdl Hd].
      destruct (first_index_is_Some d l Hdl) as [q Hq].
      exists 0%nat, (S q). rewrite decide_True, decide_False, Hq by set_solver.
      repeat split; [done..|lia].
    + intros Hc Hd.
      destruct (IH _ i j ltac:(lia) Hc Hd) as (p & q & Hp & Hq & Hpq).
      apply list_elem_of_lookup_2, elem_of_unique_from in Hc as [_ Hc].
      apply list_elem_of_lookup_2, elem_of_unique_from in Hd as [_ Hd].
      exists (S p), (S q).
      rewrite !decide_False, Hp, Hq by set_solver.
      repeat split; [done..|lia].
Qed.

Lemma elem_of_unique col c : c ∈ unique col ↔ c ∈ col.
Proof.
  unfold unique. rewrite elem_of_unique_from.
  split; [by intros [? _]|]. intros Hc. split; [done|apply not_elem_of_empty].
Qed.

Lemma NoDup_unique col : NoDup (unique col).
Proof. apply NoDup_unique_from. Qed.

Lemma entries_lookup_notin u (m : gmap K string) (n : nat) c :
  c ∉ u → foldl add_entry m (enumerate_from n u) !! c = m !! c.
Proof.
  revert m n. induction u as [|x u IH]; intros m n Hc; [done|].
  simpl. rewrite IH by set_solver. unfold add_entry. simpl.
  apply lookup_insert_ne. set_solver.
Qed.

Lemma entries_lookup u (m : gmap K string) (n i : nat) c :
  NoDup u → u !! i = Some c →
  foldl add_entry m (enumerate_from n u) !! c = Some (bu_label (n + i)).
Proof.
  revert m n i. induction u as [|x u IH]; intros m n i Hnd Hi; [done|].
  apply NoDup_cons in Hnd as [Hx Hnd]. simpl.
  destruct i as [|i]; simpl in Hi.
  - injection Hi as ->. rewrite entries_lookup_notin by done.
    unfold add_entry. simpl. rewrite Nat.add_0_r. apply lookup_insert_eq.
  - rewrite (IH _ _ i) by done. do 2 f_equal. lia.
Qed.

Lemma bu_mapping_lookup u (i : nat) c :
  NoDup u → u !! i = Some c → bu_mapping u !! c = Some (bu_label i).
Proof. intros. unfold bu_mapping. by erewrite (entries_lookup u ∅ 0 i). Qed.

Lemma bu_mapping_lookup_None u c : c ∉ u → bu_mapping u !! c = None.
Proof. intros. unfold bu_mapping. by rewrite (entries_lookup_notin u ∅ 0). Qed.

End PseudonymFacts.

Lemma bu_label_inj (i j : nat) : bu_label i = bu_label j → i = j.
Proof.
  unfold bu_label. intros Heq.
  apply (inj (String.app "BU-")) in Heq.
  apply (inj pretty) in Heq. lia.
Qed.

Section PseudonymTheorems.
Context `{Countable K}.

Lemma pseudonyms_lookup (col : list K) (i : nat) c :
  unique col !! i = Some c → bu_mapping (unique col) !! c = Some (bu_label i).
Proof. apply bu_mapping_lookup, NoDup_unique. Qed.

Lemma bu_mapping_inj (col : list K) c d :
  c ∈ col → d ∈ col →
  bu_mapping (unique col) !! c = bu_mapping (unique col) !! d → c = d.
Proof.
  intros Hc Hd.
  apply elem_of_unique, list_elem_of_lookup_1 in Hc as [i Hi].
  apply elem_of_unique, list_elem_of_lookup_1 in Hd as [j Hj].
  rewrite (pseudonyms_lookup _ _ _ Hi), (pseudonyms_lookup _ _ _ Hj).
  intros Hij. apply (inj Some), bu_label_inj in Hij. subst j. congruence.
Qed.

Lemma Int_BU_pseudonymize {M V} (df : list (row K M V)) :
  Int_BU <$> pseudonymize df = pseudonyms (Int_BU <$> df).
Proof.
  unfold pseudonymize, pseudonyms, series_map.
  rewrite <-!list_fmap_compose. done.
Qed.

(** C7. The dict built at line 33 has one key per distinct business unit
    of the frame; the keys stand in the order of their first rows, the
    key at position [i] (counted from 0) is given the label [BU-(i+1)],
    two different business units never share a label, and line 34
    replaces the business unit of every row by the label of that unit
    and touches no other column. *)
Theorem pseudonym_map_first_seen {M V} (df : list (row K M V)) :
  let col := Int_BU <$> df in
  let unique_bu := unique col in
  let m := bu_mapping unique_bu in
  NoDup unique_bu ∧
  (∀ c, c ∈ unique_bu ↔ c ∈ col) ∧
  (∀ (i j : nat) c d, (i < j)%nat →
     unique_bu !! i = Some c → unique_bu !! j = Some d →
     ∃ p q : nat, first_index c col = Some p ∧ first_index d col = Some q ∧ (p < q)%nat) ∧
  (∀ (i : nat) c, unique_bu !! i = Some c →
     m !! c = Some ("BU-" +:+ pretty (i + 1)%nat)) ∧
  (∀ c, is_Some (m !! c) ↔ c ∈ col) ∧
  (∀ c d, c ∈ col → d ∈ col → m !! c = m !! d → c = d) ∧
  (∀ (n : nat) r, df !! n = Some r →
     ∃ r', pseudonymize df !! n = Some r' ∧
           Int_BU r' = m !! Int_BU r ∧ is_Some (Int_BU r') ∧
           Flow_Month r' = Flow_Month r ∧ num r' = num r).
Proof.
  intros col unique_bu m.
  split; [apply NoDup_unique|].
  split; [apply elem_of_unique|].
  split; [intros i j c d; apply unique_from_order|].
  split; [apply pseudonyms_lookup|].
  assert (Hdom : ∀ c, is_Some (m !! c) ↔ c ∈ col).
  { intros c. split.
    - intros Hc. destruct (decide (c ∈ unique_bu)) as [Hin|Hin].
      + by apply elem_of_unique.
      + unfold m in Hc. rewrite bu_mapping_lookup_None in Hc by done.
        by destruct Hc.
    - intros Hc. apply elem_of_unique, list_elem_of_lookup_1 in Hc as [i Hi].
      unfold m, unique_bu. erewrite pseudonyms_lookup by done. eauto. }
  split; [done|].
  split; [apply bu_mapping_inj|].
  intros n r Hr. eexists. unfold pseudonymize.
  rewrite list_lookup_fmap, Hr. simpl.
  split; [done|]. simpl. repeat split.
  apply Hdom. subst col. apply list_elem_of_fmap_2.
  by eapply list_elem_of_lookup_2.
Qed.

End PseudonymTheorems.

Lemma pseudonym_map_witness :
  bu_mapping (unique (Int_BU <$> sample_csv)) !! Some "Globex"%string
    = Some ("BU-" +:+ pretty 2%nat).
Proof.
  apply (proj1 (proj2 (proj2 (proj2 (pseudonym_map_first_seen sample_csv)))) 1%nat).
  reflexivity.
Defined.

(** Masking a column of injectively renamed values renames the result of
    [unique]. *)
Lemma unique_from_fmap `{Countable K} `{Countable K'} (f : K → K')
    (seen : gset K) (seen' : gset K') (l : list K) :
  (∀ x y, x ∈ l → y ∈ l → f x = f y → x = y) →
  (∀ x, x ∈ l → x ∈ seen ↔ f x ∈ seen') →
  unique_from seen' (f <$> l) = f <$> unique_from seen l.
Proof.
  revert seen seen'. induction l as [|x l IH]; intros seen seen' Hinj Hseen; [done|].
  cbn [fmap list_fmap unique_from].
  assert (Hx : x ∈ seen ↔ f x ∈ seen') by (apply Hseen; left).
  assert (Hinj' : ∀ a b, a ∈ l → b ∈ l → f a = f b → a = b)
    by (intros a b ? ?; apply Hinj; by right).
  destruct (decide (x ∈ seen)) as [Hin|Hin].
  - rewrite decide_True by (by apply Hx).
    apply IH; [done|]. intros y Hy. apply Hseen. by right.
  - rewrite decide_False by (by rewrite <-Hx).
    rewrite fmap_cons. f_equal. apply IH; [done|].
    intros y Hy. rewrite !elem_of_union, !elem_of_singleton.
    rewrite (Hseen y) by (by right).
    split; (intros [Heq|?]; [left|by right]).
    + by rewrite Heq.
    + apply Hinj; [by right|left|done].
Qed.

(** C8. Masking a column that is already masked changes nothing: the
    labels of the masked column appear in the order [BU-1], [BU-2], ..., so
    the second dict maps every label to itself.  The labels therefore do not
    depend on how often lines 32-34 run on a loaded frame. *)
Theorem pseudonymize_idempotent `{Countable K} {M V} (df : list (row K M V)) :
  pseudonymize (pseudonymize df) = pseudonymize df ∧
  pseudonyms (pseudonyms (Int_BU <$> df)) = pseudonyms (Int_BU <$> df) ∧
  ∀ l : option string, l ∈ Int_BU <$> pseudonymize df →
    bu_mapping (unique (Int_BU <$> pseudonymize df)) !! l = l.
Proof.
  set (col := Int_BU <$> df).
  set (g := λ c : K, bu_mapping (unique col) !! c).
  assert (Hcol : Int_BU <$> pseudonymize df = g <$> col).
  { rewrite Int_BU_pseudonymize. done. }
  assert (Hg : ∀ x y, x ∈ col → y ∈ col → g x = g y → x = y).
  { intros x y. apply bu_mapping_inj. }
  assert (Hu : unique (g <$> col) = g <$> unique col).
  { apply unique_from_fmap; [done|]. intros x _. set_solver. }
  assert (Hfix : ∀ c, c ∈ col → bu_mapping (unique (g <$> col)) !! g c = g c).
  { intros c Hc. apply elem_of_unique, list_elem_of_lookup_1 in Hc as [i Hi].
    assert (Hgc : g c = Some (bu_label i)) by exact (pseudonyms_lookup _ _ _ Hi).
    rewrite Hu, Hgc. apply bu_mapping_lookup.
    - apply NoDup_fmap_2_strong; [|apply NoDup_unique].
      intros x y Hx Hy. apply Hg; by apply elem_of_unique.
    - by rewrite list_lookup_fmap, Hi, <-Hgc. }
  assert (Hrows : pseudonymize (pseudonymize df) = pseudonymize df).
  { unfold pseudonymize at 1. rewrite Hcol.
    unfold pseudonymize. fold col. rewrite <-list_fmap_compose.
    apply list_fmap_ext. intros n r Hr. simpl. f_equal.
    apply Hfix. subst col. apply list_elem_of_fmap_2.
    by eapply list_elem_of_lookup_2. }
  split; [done|]. split.
  - unfold col. rewrite <-(Int_BU_pseudonymize df).
    rewrite <-(Int_BU_pseudonymize (pseudonymize df)). by rewrite Hrows.
  - rewrite Hcol. intros l (c & -> & Hc)%list_elem_of_fmap_1. by apply Hfix.
Qed.

Lemma pseudonymize_idempotent_witness :
  bu_mapping (unique (Int_BU <$> pseudonymize sample_csv)) !! Some "BU-2"%string
    = Some "BU-2"%string.
Proof.
  apply (proj2 (proj2 (pseudonymize_idempotent sample_csv))).
  vm_compute. do 2 apply list_elem_of_further. apply list_elem_of_here.
Defined.

(** ** Numbers read from text *)

Section Rounding.
Variables prec emax : Z.









End Rounding.





(** *** The scanner on a literal *)



Lemma digits_value_from_nonneg acc ds :
  all_digits ds → 0 ≤ acc → 0 ≤ digits_value_from acc ds.
Proof.
  intros Hds. revert acc. induction Hds as [|c ds Hc _ IH]; intros acc Hacc; [done|].
  apply IH. unfold isdigit in Hc. apply andb_true_iff in Hc as [?%Z.leb_le _]. lia.
Qed.

Lemma digits_value_nonneg ds : all_digits ds → 0 ≤ digits_value ds.
Proof. intros. by apply digits_value_from_nonneg. Qed.












(** A literal without fraction and exponent denotes an integer. *)
Lemma literal_value_integer ds :
  all_digits ds →
  literal_value (Literal NoSign ds None None) = F64.of_Z (digits_value ds).
Proof.
  intros Hds%digits_value_nonneg.
  unfold literal_value, F64.of_decimal, F64.of_Z. simpl. rewrite app_nil_r.
  destruct (digits_value ds) as [|p|p] eqn:E; [done| |lia].
  by rewrite Z.mul_1_r.
Qed.

(** *** Cleaning a cell *)












Lemma NoDup_numeric_cols : NoDup numeric_cols.
Proof. apply (bool_decide_unpack _). by vm_compute. Qed.









(** ** Group totals *)



(** Sums in a commutative monoid. *)
Section ExactSums.
Context {V : Type} (add : V → V → V) (zero : V).
Hypothesis add_assoc : ∀ x y z, add x (add y z) = add (add x y) z.
Hypothesis add_comm : ∀ x y, add x y = add y x.
Hypothesis add_zero_l : ∀ x, add zero x = x.











End ExactSums.




Example large_csv_sums :
  fsum M3_Position (df_filtered (prepare large_csv) select_all) = F64.zero ∧
  g_M3_Position <$> bu_group F64.add F64.zero (df_filtered (prepare large_csv) select_all)
    = [F64.zero; F64.of_Z 1].
Proof. vm_compute. done. Qed.

(** ** The sample end to end *)

Example sample_totals :
  (λ t, (g_Int_BU t, g_M3_Position t))
    <$> bu_group F64.add F64.zero (df_filtered (prepare sample_csv) select_all)
    = [("BU-1"%string, F64.of_Z 1500); ("BU-2"%string, F64.of_Z (-200))] ∧
  fsum M3_Position (df_filtered (prepare sample_csv) select_all) = F64.of_Z 1300 ∧
  trend (df_filtered (prepare sample_csv) select_all) = net_injection.
Proof. vm_compute. done. Qed.

(** ** Checks on concrete cells *)

Example to_numeric_examples :
  to_numeric "1234" = F64.of_Z 1234 ∧
  to_numeric "-200" = F64.of_Z (-200) ∧
  to_numeric "0.5" = S754_finite false 4503599627370496 (-53) ∧
  to_numeric "1.5E+2" = F64.of_Z 150 ∧
  to_numeric "inf" = F64.inf ∧
  to_numeric "-Infinity" = S754_infinity true ∧
  to_numeric "" = F64.nan ∧
  to_numeric "N/A" = F64.nan ∧
  to_numeric "nan" = F64.nan ∧
  to_numeric "1e" = F64.nan ∧
  to_numeric "1e400" = F64.nan.
Proof. vm_compute. done. Qed.

Example normalize_cell_examples :
  normalize_cell (Some "1,234 ") = F64.of_Z 1234 ∧
  normalize_cell (Some " 1 000,000") = F64.of_Z 1000000 ∧
  normalize_cell (Some "-1,234.50") = F64.div (F64.of_Z (-2469)) (F64.of_Z 2) ∧
  normalize_cell (Some "inf") = F64.inf ∧
  normalize_cell (Some "N/A") = F64.zero ∧
  normalize_cell None = F64.zero.
Proof. vm_compute. done. Qed.

Example to_datetime_examples :
  to_datetime (Some "01/2024") = Some (Date 2024 1 1) ∧
  to_datetime (Some "1/2024") = Some (Date 2024 1 1) ∧
  to_datetime (Some "12/2024") = Some (Date 2024 12 1) ∧
  to_datetime (Some "13/2024") = None ∧
  to_datetime (Some "00/2024") = None ∧
  to_datetime (Some "01/24") = None ∧
  to_datetime (Some "2024-01") = None ∧
  to_datetime (Some "01/1500") = None ∧
  to_datetime None = None.
Proof. vm_compute. done. Qed.

(** Over no row the division the mean would make is 0.0 / 0.0, which is
    NaN as well. *)
Example mean_of_no_row : F64.div F64.zero (F64.of_Z 0) = F64.nan.
Proof. reflexivity. Qed.

(** * Further properties of the script *)

(** ** Order of dates *)

Lemma date_leb_spec a b :
  date_leb a b = true ↔
  year a < year b ∨ (year a = year b ∧ (month a < month b ∨ (month a = month b ∧ day a ≤ day b))).
Proof.
  unfold date_leb.
  rewrite !orb_true_iff, !andb_true_iff, !orb_true_iff, !andb_true_iff,
    !Z.ltb_lt, !Z.eqb_eq, Z.leb_le. tauto.
Qed.

Lemma month_leb_spec a b :
  month_leb a b = true ↔ year a < year b ∨ (year a = year b ∧ month a ≤ month b).
Proof.
  unfold month_leb.
  rewrite orb_true_iff, andb_true_iff, Z.ltb_lt, Z.eqb_eq, Z.leb_le. tauto.
Qed.

Lemma date_leb_refl a : date_leb a a = true.
Proof. apply date_leb_spec. lia. Qed.

Lemma date_leb_trans a b c :
  date_leb a b = true → date_leb b c = true → date_leb a c = true.
Proof. rewrite !date_leb_spec. lia. Qed.

Lemma date_leb_total a b : date_leb a b = true ∨ date_leb b a = true.
Proof. rewrite !date_leb_spec. lia. Qed.

Lemma date_leb_antisym a b :
  date_leb a b = true → date_leb b a = true → a = b.
Proof.
  rewrite !date_leb_spec. intros Hab Hba.
  destruct a as [ya ma da], b as [yb mb db]. simpl in *.
  f_equal; lia.
Qed.

#[local] Instance date_le_total : Total date_le.
Proof. intros a b. apply date_leb_total. Qed.
#[local] Instance date_le_trans : Transitive date_le.
Proof. intros a b c. apply date_leb_trans. Qed.
#[local] Instance date_le_antisym : AntiSymm (=) date_le.
Proof. intros a b. apply date_leb_antisym. Qed.

(** ** Reading a flow month *)

Lemma read_month_range s m s' :
  read_month s = Some (m, s') → 1 ≤ m ≤ 12.
Proof.
  unfold read_month. intros Hm.
  repeat case_match; simplify_eq;
    repeat match goal with
           | H : _ && _ = true |- _ => apply andb_true_iff in H as [?%Z.leb_le ?%Z.leb_le]
           end; lia.
Qed.

Lemma to_datetime_Some_inv (c : cell) (d : date) :
  to_datetime c = Some d →
  c ≠ None ∧ day d = 1 ∧ 1 ≤ month d ≤ 12 ∧
  date_leb (Date 1677 10 1) d = true ∧ date_leb d (Date 2262 4 1) = true.
Proof.
  intros Hd. unfold to_datetime in Hd. destruct c as [s|]; [|done]. simpl in Hd.
  destruct (read_month (chars s)) as [[m s1]|] eqn:Hm; [|done]. simpl in Hd.
  apply read_month_range in Hm.
  destruct s1 as [|c1 s2]; [done|].
  destruct (decide (c1 = "/"%char)) as [->|Hne];
    [|by destruct c1 as [[] [] [] [] [] [] [] []]].
  destruct (read_year s2) as [[y s3]|]; [|done]. simpl in Hd.
  destruct s3; [|done].
  destruct (in_bounds y m) eqn:Hb; [|done]. injection Hd as <-. simpl.
  unfold in_bounds in Hb. apply andb_true_iff in Hb as [Hlo%Z.leb_le Hhi%Z.leb_le].
  split; [done|]. split; [done|]. split; [done|].
  rewrite !date_leb_spec. simpl. lia.
Qed.



Lemma ord_digit_char d : 0 ≤ d ≤ 9 → ord (digit_char d) = 48 + d.
Proof.
  intros Hd. unfold ord, digit_char.
  rewrite N_ascii_embedding by lia. lia.
Qed.

Lemma isdigit_digit_char d : 0 ≤ d ≤ 9 → isdigit (digit_char d) = true.
Proof.
  intros Hd. unfold isdigit. rewrite (ord_digit_char d Hd).
  apply andb_true_iff. split; apply Z.leb_le; lia.
Qed.

Lemma read_month_two_digits m rest :
  1 ≤ m ≤ 12 →
  read_month (digit_char (m / 10) :: digit_char (m mod 10) :: rest) = Some (m, rest).
Proof.
  intros Hm.
  assert (m = 1 ∨ m = 2 ∨ m = 3 ∨ m = 4 ∨ m = 5 ∨ m = 6 ∨ m = 7 ∨ m = 8 ∨ m = 9
          ∨ m = 10 ∨ m = 11 ∨ m = 12) as Hcases by lia.
  repeat destruct Hcases as [->|Hcases]; try subst m; reflexivity.
Qed.

Lemma read_year_four_digits y :
  0 ≤ y ≤ 9999 →
  read_year [digit_char (y / 1000); digit_char (y / 100 mod 10);
             digit_char (y / 10 mod 10); digit_char (y mod 10)] = Some (y, []).
Proof.
  intros Hy. unfold read_year.
  assert (0 ≤ y / 1000 ≤ 9) as H3 by (Z.div_mod_to_equations; lia).
  assert (0 ≤ y / 100 mod 10 ≤ 9) as H2 by (Z.div_mod_to_equations; lia).
  assert (0 ≤ y / 10 mod 10 ≤ 9) as H1 by (Z.div_mod_to_equations; lia).
  assert (0 ≤ y mod 10 ≤ 9) as H0 by (Z.div_mod_to_equations; lia).
  rewrite !isdigit_digit_char, !ord_digit_char by done. simpl.
  do 2 f_equal. Z.div_mod_to_equations. lia.
Qed.

(** X2. The text [MM/YYYY] of every month from October 1677 to April 2262
    is read back as the first day of that month: no month a timestamp can
    hold is lost on the way into the frame. *)
Theorem to_datetime_month_year_text (y m : Z)
    (Hm : 1 ≤ m ≤ 12) (Hb : in_bounds y m = true) :
  to_datetime (Some (month_year_text y m)) = Some (Date y m 1).
Proof.
  assert (0 ≤ y ≤ 9999) as Hy.
  { unfold in_bounds in Hb.
    apply andb_true_iff in Hb as [Hlo%Z.leb_le Hhi%Z.leb_le]. lia. }
  unfold to_datetime, month_year_text, chars, text. cbn [mbind option_bind].
  rewrite list_ascii_of_string_of_list_ascii.
  rewrite read_month_two_digits by done. cbn [mbind option_bind].
  rewrite read_year_four_digits by done. cbn [mbind option_bind]. by rewrite Hb.
Qed.

Lemma to_datetime_month_year_text_witness :
  to_datetime (Some (month_year_text 2024 3)) = Some (Date 2024 3 1).
Proof.
  apply (to_datetime_month_year_text 2024 3); [lia | reflexivity].
Defined.

(** ** Selections *)

Lemma filter_ext_elem {A} (P Q : A → Prop) `{!∀ x, Decision (P x)}
    `{!∀ x, Decision (Q x)} (l : list A) :
  (∀ x, x ∈ l → P x ↔ Q x) → filter P l = filter Q l.
Proof.
  induction l as [|x l IH]; intros Hext; [done|].
  rewrite !filter_cons, IH by (intros y Hy; apply Hext; by right).
  destruct (decide (P x)) as [Hx|Hx].
  - rewrite decide_True; [done|]. by apply (Hext x); [left|].
  - rewrite decide_False; [done|]. intros HQ. apply Hx. by apply (Hext x); [left|].
Qed.

Lemma foldl_date_min d ds :
  foldl date_min d ds ∈ d :: ds ∧
  ∀ x, x ∈ d :: ds → date_leb (foldl date_min d ds) x = true.
Proof.
  revert d. induction ds as [|e ds IH]; intros d; simpl.
  - split; [left|]. intros x ->%list_elem_of_singleton. apply date_leb_refl.
  - destruct (IH (date_min d e)) as [Hin Hle]. split.
    + apply elem_of_cons in Hin as [->|Hin]; [|by do 2 right].
      unfold date_min. destruct (date_leb d e); [left|right; left].
    + intros x Hx.
      assert (date_leb (date_min d e) d = true ∧ date_leb (date_min d e) e = true)
        as [Hd He].
      { unfold date_min. destruct (date_leb d e) eqn:E.
        - by rewrite date_leb_refl.
        - rewrite date_leb_refl. by destruct (date_leb_total d e) as [?|?]; [congruence|]. }
      pose proof (Hle (date_min d e) ltac:(left)) as Hm.
      apply elem_of_cons in Hx as [->|[->|Hx]%elem_of_cons].
      * by eapply date_leb_trans.
      * by eapply date_leb_trans.
      * apply Hle. by right.
Qed.

Lemma foldl_date_max d ds :
  foldl date_max d ds ∈ d :: ds ∧
  ∀ x, x ∈ d :: ds → date_leb x (foldl date_max d ds) = true.
Proof.
  revert d. induction ds as [|e ds IH]; intros d; simpl.
  - split; [left|]. intros x ->%list_elem_of_singleton. apply date_leb_refl.
  - destruct (IH (date_max d e)) as [Hin Hle]. split.
    + apply elem_of_cons in Hin as [->|Hin]; [|by do 2 right].
      unfold date_max. destruct (date_leb d e); [right; left|left].
    + intros x Hx.
      assert (date_leb d (date_max d e) = true ∧ date_leb e (date_max d e) = true)
        as [Hd He].
      { unfold date_max. destruct (date_leb d e) eqn:E.
        - by rewrite date_leb_refl.
        - rewrite date_leb_refl. by destruct (date_leb_total d e) as [?|?]; [congruence|]. }
      pose proof (Hle (date_max d e) ltac:(left)) as Hm.
      apply elem_of_cons in Hx as [->|[->|Hx]%elem_of_cons].
      * by eapply date_leb_trans.
      * by eapply date_leb_trans.
      * apply Hle. by right.
Qed.

Lemma elem_of_flow_months {C V} (df : list (row C (option date) V)) d :
  d ∈ omap Flow_Month df ↔ ∃ r, r ∈ df ∧ Flow_Month r = Some d.
Proof. apply list_elem_of_omap. Qed.

(** X3. The defaults of the sidebar.  If some row is dated, the earliest
    and the latest flow month are months of rows, and with them and every
    business unit selected the filter keeps exactly the dated rows: a row
    whose flow month is NaT is shown under no selection, not even the
    default one.  If no row is dated, both defaults are NaT. *)
Theorem default_selection_keeps_dated_rows {V} (df : list (frow V)) :
  match min_date df, max_date df with
  | Some lo, Some hi =>
      (∃ r, r ∈ df ∧ Flow_Month r = Some lo) ∧
      (∃ r, r ∈ df ∧ Flow_Month r = Some hi) ∧
      date_leb lo hi = true ∧
      df_filtered df (Selection (bu_options df) lo hi)
        = filter (λ r, is_Some (Flow_Month r)) df
  | None, None => ∀ r, r ∈ df → Flow_Month r = None
  | _, _ => False
  end.
Proof.
  unfold min_date, max_date, pick_date.
  destruct (omap Flow_Month df) as [|d ds] eqn:Hds.
  - intros r Hr. destruct (Flow_Month r) as [d|] eqn:Hd; [|done].
    assert (d ∈ omap Flow_Month df) as Hin by (apply elem_of_flow_months; eauto).
    rewrite Hds in Hin. by apply elem_of_nil in Hin.
  - destruct (foldl_date_min d ds) as [Hlo_in Hlo], (foldl_date_max d ds) as [Hhi_in Hhi].
    rewrite <-Hds in Hlo_in, Hhi_in.
    split; [by apply elem_of_flow_months|]. split; [by apply elem_of_flow_months|].
    split; [apply Hlo; by rewrite Hds in Hhi_in|].
    unfold df_filtered. apply filter_ext_elem. intros r Hr.
    rewrite in_selection_spec. simpl. split.
    + intros (_ & x & -> & _). eauto.
    + intros [x Hx]. split.
      * unfold bu_options. apply elem_of_unique. by apply list_elem_of_fmap_2.
      * assert (x ∈ d :: ds) by (rewrite <-Hds; apply elem_of_flow_months; eauto).
        exists x. auto.
Qed.

(** X4. Narrowing a selection.  When a selection names fewer business
    units, starts no earlier and ends no later than another one, filtering
    with it gives a sub-sequence of the other result, the same as filtering
    that result again. *)
Theorem narrower_selection {V} (df : list (frow V)) (wide narrow : selection)
    (Hbu : ∀ b, b ∈ selected_bu narrow → b ∈ selected_bu wide)
    (Hstart : date_leb (start_date wide) (start_date narrow) = true)
    (Hend : date_leb (end_date narrow) (end_date wide) = true) :
  df_filtered (df_filtered df wide) narrow = df_filtered df narrow ∧
  df_filtered df narrow `sublist_of` df_filtered df wide.
Proof.
  assert (Heq : df_filtered (df_filtered df wide) narrow = df_filtered df narrow).
  { unfold df_filtered. rewrite list_filter_filter. apply filter_ext_elem.
    intros r _. split; [tauto|]. intros Hr. split; [done|].
    apply in_selection_spec in Hr as (Hb & d & Hd & Hlo & Hhi).
    apply in_selection_spec. split; [auto|].
    exists d. eauto using date_leb_trans. }
  split; [done|]. rewrite <-Heq. apply sublist_filter.
Qed.

Lemma narrower_selection_witness :
  df_filtered (df_filtered sample_frame select_all) select_second
    = df_filtered sample_frame select_second ∧
  df_filtered sample_frame select_second `sublist_of` df_filtered sample_frame select_all.
Proof.
  apply (narrower_selection sample_frame select_all select_second).
  - intros b Hb. apply list_elem_of_singleton in Hb as ->.
    apply list_elem_of_further, list_elem_of_here.
  - reflexivity.
  - reflexivity.
Defined.

Lemma default_selection_witness :
  df_filtered sample_frame
      (Selection (bu_options sample_frame) (Date 2024 1 1) (Date 2024 2 1))
    = filter (λ r, is_Some (Flow_Month r)) sample_frame ∧
  Flow_Month (undated "BU-1" F64.zero) = None.
Proof.
  split.
  - exact (proj2 (proj2 (proj2 (default_selection_keeps_dated_rows sample_frame)))).
  - apply (default_selection_keeps_dated_rows [undated "BU-1" F64.zero]).
    apply list_elem_of_here.
Defined.

Lemma elem_of_parse_flow_month {C V} (df : list (row C cell V)) r :
  r ∈ parse_flow_month df →
  Flow_Month r = None ∨ ∃ d, Flow_Month r = Some d ∧ day d = 1 ∧ 1 ≤ month d ≤ 12.
Proof.
  unfold parse_flow_month. intros (r0 & -> & _)%list_elem_of_fmap_1. simpl.
  destruct (to_datetime (Flow_Month r0)) as [d|] eqn:Hd; [|by left].
  right. exists d. apply to_datetime_Some_inv in Hd. tauto.
Qed.

(** X5. The two ends of the date range act differently on a parsed frame,
    whose flow months are first days of months.  The end date counts by its
    month, whatever its day; the start date lets the rows of its own month
    pass only if it is the first of that month, so a start in the middle of
    a month drops that month. *)
Theorem start_date_cuts_its_month {V} (df : list (row (option string) cell V))
    (sel : selection) (r : frow V) (Hend : 1 ≤ day (end_date sel)) :
  r ∈ df_filtered (parse_flow_month df) sel ↔
  r ∈ parse_flow_month df ∧ Int_BU r ∈ selected_bu sel ∧
  ∃ d, Flow_Month r = Some d ∧
       month_leb d (end_date sel) = true ∧
       month_leb (start_date sel) d = true ∧
       (day (start_date sel) ≤ 1 ∨ month_leb d (start_date sel) = false).
Proof.
  rewrite elem_of_df_filtered, in_selection_spec. split.
  - intros (Hr & Hbu & d & Hd & Hlo & Hhi).
    split; [done|]. split; [done|]. exists d. split; [done|].
    destruct (elem_of_parse_flow_month df r Hr) as [?|(d' & Hd' & Hday & _)];
      [congruence|]. assert (d' = d) as -> by congruence.
    split; [by apply date_leb_month_leb|]. split; [by apply date_leb_month_leb|].
    destruct (month_leb d (start_date sel)) eqn:Hm; [|by right]. left.
    apply date_leb_spec in Hlo. apply month_leb_spec in Hm. lia.
  - intros (Hr & Hbu & d & Hd & Hhi & Hlo & Hcut).
    split; [done|]. split; [done|]. exists d. split; [done|].
    destruct (elem_of_parse_flow_month df r Hr) as [?|(d' & Hd' & Hday & _)];
      [congruence|]. assert (d' = d) as -> by congruence.
    apply month_leb_spec in Hhi, Hlo. rewrite !date_leb_spec.
    destruct Hcut as [Hcut|Hcut].
    + lia.
    + assert (¬ (year d < year (start_date sel) ∨
                 (year d = year (start_date sel) ∧ month d ≤ month (start_date sel))))
        by (rewrite <-month_leb_spec; congruence).
      lia.
Qed.

Lemma start_date_cuts_its_month_witness :
  Row (Some "BU-1"%string) (Some (Date 2024 1 1)) (λ _ : numeric_col, 5)
    ∉ df_filtered
        (parse_flow_month [Row (Some "BU-1"%string) (Some "01/2024"%string)
                               (λ _ : numeric_col, 5)])
        (Selection [Some "BU-1"%string] (Date 2024 1 15) (Date 2024 1 20)).
Proof.
  intros Hin.
  apply (start_date_cuts_its_month
           [Row (Some "BU-1"%string) (Some "01/2024"%string) (λ _ : numeric_col, 5)]
           (Selection [Some "BU-1"%string] (Date 2024 1 15) (Date 2024 1 20)))
    in Hin; [|simpl; lia].
  destruct Hin as (_ & _ & d & Hd & _ & _ & [Hcut|Hcut]).
  - simpl in Hcut. lia.
  - simpl in Hd. injection Hd as <-. discriminate Hcut.
Defined.

(** ** Labels and the rows behind them *)

Lemma filter_fmap {A B} (f : A → B) (P : B → Prop) `{!∀ y, Decision (P y)}
    (l : list A) :
  filter P (f <$> l) = f <$> filter (λ x, P (f x)) l.
Proof.
  induction l as [|x l IH]; [done|].
  rewrite fmap_cons, !filter_cons, IH. by destruct (decide (P (f x))).
Qed.

Lemma prepared_frame `{Countable K} {V} (df : list (row K cell V)) :
  parse_flow_month (pseudonymize df)
    = prepare_row (bu_mapping (unique (Int_BU <$> df))) <$> df.
Proof.
  unfold parse_flow_month, pseudonymize. by rewrite <-list_fmap_compose.
Qed.

Lemma masked_unique `{Countable K} (col : list K) :
  unique (pseudonyms col)
    = (λ i, Some (bu_label i)) <$> seq 0 (length (unique col)).
Proof.
  unfold pseudonyms, series_map. unfold unique at 1.
  rewrite (unique_from_fmap (λ k, bu_mapping (unique col) !! k) ∅ ∅ col);
    fold (unique col).
  - apply list_eq. intros i. rewrite !list_lookup_fmap.
    destruct (unique col !! i) as [c|] eqn:Hi; simpl.
    + rewrite (pseudonyms_lookup col i c Hi).
      rewrite lookup_seq_lt by (by eapply lookup_lt_Some). done.
    + rewrite lookup_seq_ge by (by apply lookup_ge_None). done.
  - apply bu_mapping_inj.
  - intros x _. split; intros []%not_elem_of_empty.
Qed.

(** X6. The options of the multiselect.  After masking, the distinct
    values of the business-unit column are the labels BU-1, BU-2, ... up to
    the number of distinct business units of the table, in this order and
    without gap or repetition. *)
Theorem masked_options `{Countable K} {M V} (df : list (row K M V)) :
  bu_options (pseudonymize df)
    = (λ i, Some (bu_label i)) <$> seq 0 (length (unique (Int_BU <$> df))) ∧
  length (bu_options (pseudonymize df)) = length (unique (Int_BU <$> df)) ∧
  NoDup (bu_options (pseudonymize df)).
Proof.
  unfold bu_options. rewrite Int_BU_pseudonymize, masked_unique.
  split; [done|]. split; [by rewrite length_fmap, length_seq|].
  rewrite <-masked_unique. apply NoDup_unique.
Qed.

(** X7. Selecting one label shows the rows of one business unit.  If the
    dict gives the real business unit [c] the label [l], then filtering the
    prepared frame for [l] alone keeps exactly the rows of the table whose
    business unit is [c] and whose flow month is read and lies in the date
    range, in their order. *)
Theorem label_selects_its_unit `{Countable K} {V} (df : list (row K cell V))
    (c : K) (l : string) (s e : date)
    (Hl : bu_mapping (unique (Int_BU <$> df)) !! c = Some l) :
  df_filtered (parse_flow_month (pseudonymize df)) (Selection [Some l] s e)
    = prepare_row (bu_mapping (unique (Int_BU <$> df)))
        <$> filter (λ r, Int_BU r = c ∧ in_range s e (to_datetime (Flow_Month r)) = true) df.
Proof.
  rewrite prepared_frame. unfold df_filtered. rewrite filter_fmap. f_equal.
  apply filter_ext_elem. intros r Hr.
  assert (Hc : c ∈ Int_BU <$> df).
  { destruct (decide (c ∈ unique (Int_BU <$> df))) as [Hin|Hin];
      [by apply elem_of_unique|].
    by rewrite bu_mapping_lookup_None in Hl. }
  assert (Hrc : Int_BU r ∈ Int_BU <$> df) by (by apply list_elem_of_fmap_2).
  rewrite in_selection_spec. unfold prepare_row, in_range. simpl.
  rewrite list_elem_of_singleton. split.
  - intros (Hbu & d & -> & Hlo & Hhi). split.
    + apply (bu_mapping_inj (Int_BU <$> df)); [done..|]. by rewrite Hl.
    + by rewrite Hlo, Hhi.
  - intros [-> Hd]. split; [done|].
    destruct (to_datetime (Flow_Month r)) as [d|]; [|done].
    apply andb_true_iff in Hd as [? ?]. eauto.
Qed.

Lemma label_selects_its_unit_witness :
  df_filtered (parse_flow_month (pseudonymize sample_csv))
      (Selection [Some "BU-2"%string] (Date 2024 1 1) (Date 2024 2 1))
    = prepare_row (bu_mapping (unique (Int_BU <$> sample_csv)))
        <$> filter (λ r, Int_BU r = Some "Globex"%string ∧
                         in_range (Date 2024 1 1) (Date 2024 2 1)
                                  (to_datetime (Flow_Month r)) = true) sample_csv.
Proof.
  apply (label_selects_its_unit sample_csv (Some "Globex"%string) "BU-2").
  reflexivity.
Defined.

(** ** Groups *)

Lemma string_compare_trans a b c :
  String.compare a b ≠ Gt → String.compare b c ≠ Gt → String.compare a c ≠ Gt.
Proof.
  revert b c. induction a as [|x a IH]; intros [|y b] [|z c]; simpl; try done.
  unfold Ascii.compare.
  destruct (N.compare_spec (N_of_ascii x) (N_of_ascii y)) as [Hxy|Hxy|Hxy];
    destruct (N.compare_spec (N_of_ascii y) (N_of_ascii z)) as [Hyz|Hyz|Hyz];
    destruct (N.compare_spec (N_of_ascii x) (N_of_ascii z)) as [Hxz|Hxz|Hxz];
    try done; try lia.
  apply IH.
Qed.

Lemma label_le_spec a b : label_le a b ↔ String.compare a b ≠ Gt.
Proof. unfold label_le, String.leb. by destruct (String.compare a b). Qed.

#[local] Instance label_le_total : Total label_le.
Proof. intros a b. apply String.leb_total. Qed.
#[local] Instance label_le_trans : Transitive label_le.
Proof. intros a b c. rewrite !label_le_spec. apply string_compare_trans. Qed.
#[local] Instance label_le_antisym : AntiSymm (=) label_le.
Proof. intros a b. apply String.leb_antisym. Qed.











(** ** Sorting with a relation that is total on part of the elements *)

Section SortOn.
Context {A} (R : relation A) `{!RelDecision R} (P : A → Prop).
Hypothesis R_total_on : ∀ x y, P x → P y → R x y ∨ R y x.

Lemma Sorted_list_merge_on (l1 l2 : list A) :
  Forall P l1 → Forall P l2 → Sorted R l1 → Sorted R l2 →
  Sorted R (list_merge R l1 l2).
Proof.
  revert l2. induction l1 as [|x1 l1 IH1]; intros l2.
  { intros. by rewrite list_merge_nil_l. }
  induction l2 as [|x2 l2 IH2]; intros HP1 HP2 Hs1 Hs2.
  { by rewrite list_merge_nil_r. }
  rewrite list_merge_cons.
  apply Forall_cons in HP1 as [Hx1 HP1]. apply Forall_cons in HP2 as [Hx2 HP2].
  apply Sorted_inv in Hs1 as [Hs1 Hh1]. apply Sorted_inv in Hs2 as [Hs2 Hh2].
  case_decide as HR.
  - constructor.
    + apply IH1; [done| |done|]; by constructor.
    + apply HdRel_list_merge; [done|by constructor].
  - destruct (R_total_on x1 x2 Hx1 Hx2) as [?|HR']; [done|].
    constructor.
    + apply IH2; [by constructor|done| |done]. by constructor.
    + apply HdRel_list_merge; [by constructor|done].
Qed.

Lemma merge_runs_ok (l1 l2 : list A) :
  (sorted_run R P) (Some l1) → (sorted_run R P) (Some l2) → (sorted_run R P) (Some (list_merge R l1 l2)).
Proof.
  intros [Hs1 HP1] [Hs2 HP2]. split; [by apply Sorted_list_merge_on|].
  rewrite merge_Permutation. by apply Forall_app.
Qed.

Lemma merge_list_to_stack_ok st l :
  Forall (sorted_run R P) st → (sorted_run R P) (Some l) → Forall (sorted_run R P) (merge_list_to_stack R st l).
Proof.
  intros Hst. revert l. induction Hst as [|[l'|] st Hl' Hst IH]; intros l Hl; simpl.
  - by constructor.
  - constructor; [done|]. apply IH. by apply merge_runs_ok.
  - by constructor.
Qed.

Lemma merge_stack_ok st : Forall (sorted_run R P) st → (sorted_run R P) (Some (merge_stack R st)).
Proof.
  induction 1 as [|[l|] st Hl Hst IH]; simpl.
  - split; constructor.
  - by apply merge_runs_ok.
  - done.
Qed.

Lemma merge_sort_aux_ok st l :
  Forall (sorted_run R P) st → Forall P l → (sorted_run R P) (Some (merge_sort_aux R st l)).
Proof.
  revert st. induction l as [|x l IH]; intros st Hst Hl; simpl.
  - by apply merge_stack_ok.
  - apply Forall_cons in Hl as [Hx Hl].
    apply IH; [|done]. apply merge_list_to_stack_ok; [done|].
    split; repeat constructor. done.
Qed.

Lemma Sorted_merge_sort_on l : Forall P l → Sorted R (merge_sort R l).
Proof. intros Hl. by apply (merge_sort_aux_ok [] l). Qed.

End SortOn.

(** ** The order of binary64 numbers *)

Lemma leb_rank (x y : float) :
  F64.leb x y = true ↔
  F64.is_nan x = false ∧ F64.is_nan y = false ∧ rank_le (float_rank x) (float_rank y).
Proof.
  unfold F64.leb, SFleb, SFcompare, rank_le.
  destruct x as [[]|[]| |[] mx ex], y as [[]|[]| |[] my ey]; simpl;
    try (split; [intros ?; try done; repeat split; lia
                |intros (? & ? & ?); try done; exfalso; lia]).
  - change (Pos.compare_cont Eq mx my) with (Pos.compare mx my).
    destruct (Z.compare_spec ex ey); [destruct (Pos.compare_spec mx my)|..]; simpl;
      (split; [intros ?; try done; repeat split; lia
              |intros (? & ? & ?); try done; exfalso; lia]).
  - change (Pos.compare_cont Eq mx my) with (Pos.compare mx my).
    destruct (Z.compare_spec ex ey); [destruct (Pos.compare_spec mx my)|..]; simpl;
      (split; [intros ?; try done; repeat split; lia
              |intros (? & ? & ?); try done; exfalso; lia]).
Qed.

Lemma leb_refl_on (x : float) : F64.is_nan x = false → F64.leb x x = true.
Proof. intros Hx. apply leb_rank. unfold rank_le. repeat split; [done..|lia]. Qed.

Lemma leb_trans (x y z : float) :
  F64.leb x y = true → F64.leb y z = true → F64.leb x z = true.
Proof. rewrite !leb_rank. unfold rank_le. intros (? & ? & ?) (? & ? & ?). repeat split; [done..|lia]. Qed.

Lemma leb_total_on (x y : float) :
  F64.is_nan x = false → F64.is_nan y = false →
  F64.leb x y = true ∨ F64.leb y x = true.
Proof.
  intros Hx Hy. rewrite !leb_rank. unfold rank_le.
  destruct (float_rank x) as [[a1 a2] a3], (float_rank y) as [[b1 b2] b3]. simpl.
  assert (a1 < b1 ∨ a1 = b1 ∧ (a2 < b2 ∨ a2 = b2 ∧ a3 ≤ b3)
          ∨ b1 < a1 ∨ b1 = a1 ∧ (b2 < a2 ∨ b2 = a2 ∧ b3 ≤ a3)) as Hcases by lia.
  destruct Hcases as [?|[?|?]]; [left|left|right]; repeat split; auto; lia.
Qed.

#[local] Instance m3_le_trans asc : Transitive (m3_le asc).
Proof.
  intros a b c. unfold m3_le. destruct asc; intros Hab Hbc.
  - by eapply leb_trans.
  - by eapply leb_trans.
Qed.

Lemma m3_le_total_on asc (a b : bu_total float) :
  F64.is_nan (g_M3_Position a) = false → F64.is_nan (g_M3_Position b) = false →
  m3_le asc a b ∨ m3_le asc b a.
Proof.
  intros Ha Hb. unfold m3_le. destruct asc.
  - by apply leb_total_on.
  - destruct (leb_total_on _ _ Ha Hb); auto.
Qed.

(** ** The two insights *)

Lemma filter_nan_split (g : list (bu_total float)) :
  filter (λ t, F64.is_nan (g_M3_Position t) = false) g
    ++ filter (λ t, F64.is_nan (g_M3_Position t) = true) g ≡ₚ g.
Proof.
  induction g as [|t g IH]; [done|]. rewrite !filter_cons.
  destruct (F64.is_nan (g_M3_Position t)) eqn:E.
  - rewrite decide_False, decide_True by done. by rewrite <-Permutation_middle, IH.
  - rewrite decide_True, decide_False by done. simpl. by rewrite IH.
Qed.

Lemma sort_values_Permutation asc (g : list (bu_total float)) : sort_values asc g ≡ₚ g.
Proof. unfold sort_values. rewrite merge_sort_Permutation. apply filter_nan_split. Qed.

(** The first row after sorting is a row of the frame, and no row with a
    number as key comes before it in the order of the sort. *)
Lemma sort_values_head asc (g : list (bu_total float)) :
  g ≠ [] →
  ∃ t rest, sort_values asc g = t :: rest ∧ t ∈ g ∧
    ∀ u, u ∈ g → F64.is_nan (g_M3_Position u) = false →
         F64.is_nan (g_M3_Position t) = false ∧ m3_le asc t u.
Proof.
  intros Hne.
  pose proof (sort_values_Permutation asc g) as Hperm.
  destruct (sort_values asc g) as [|t rest] eqn:Hsort.
  { apply Permutation_nil_l in Hperm. by subst. }
  exists t, rest. split; [done|].
  split; [rewrite <-Hperm; left|].
  intros u Hu Hnum. unfold sort_values in Hsort.
  set (nums := filter (λ t, F64.is_nan (g_M3_Position t) = false) g) in *.
  assert (HP : Forall (λ t, F64.is_nan (g_M3_Position t) = false) nums).
  { apply Forall_forall. intros x Hx. by apply list_elem_of_filter in Hx as [? _]. }
  assert (Hu' : u ∈ merge_sort (m3_le asc) nums).
  { rewrite merge_sort_Permutation. by apply list_elem_of_filter. }
  pose proof (Sorted_merge_sort_on (m3_le asc) _ (m3_le_total_on asc) nums HP) as Hs.
  apply Sorted_StronglySorted in Hs; [|apply _].
  destruct (merge_sort (m3_le asc) nums) as [|t' sorted] eqn:Hms.
  { by apply elem_of_nil in Hu'. }
  simpl in Hsort. injection Hsort as -> _.
  assert (Ht : F64.is_nan (g_M3_Position t) = false).
  { eapply Forall_forall in HP; [done|].
    rewrite <-(merge_sort_Permutation (m3_le asc) nums), Hms. left. }
  split; [done|].
  apply StronglySorted_inv in Hs as [_ Hall].
  apply elem_of_cons in Hu' as [->|Hu'].
  - unfold m3_le. destruct asc; by apply leb_refl_on.
  - by eapply Forall_forall in Hall.
Qed.

Lemma insights_of_sorted_heads (g : list (bu_total float)) :
  g ≠ [] →
  ∃ top least,
    top_bu g = Ok top ∧ least_bu g = Ok least ∧ top ∈ g ∧ least ∈ g ∧
    ∀ u, u ∈ g → F64.is_nan (g_M3_Position u) = false →
      F64.leb (g_M3_Position u) (g_M3_Position top) = true ∧
      F64.leb (g_M3_Position least) (g_M3_Position u) = true.
Proof.
  intros Hne.
  destruct (sort_values_head false g Hne) as (top & r1 & Hs1 & Hin1 & Hmax).
  destruct (sort_values_head true g Hne) as (least & r2 & Hs2 & Hin2 & Hmin).
  exists top, least. unfold top_bu, least_bu. rewrite Hs1, Hs2.
  repeat split; try done.
  - by apply (Hmax u).
  - by apply (Hmin u).
Qed.

(** X11. Whenever [bu_group] has a row, both insights exist: the top unit
    and the least active unit are rows of [bu_group], and among the rows
    whose cubic-metre total is a number (not NaN) none has a greater total
    than the top unit and none a smaller total than the least active one. *)
Theorem top_and_least_are_extremal (g : list (bu_total float)) (Hne : g ≠ []) :
  ∃ top least,
    top_bu g = Ok top ∧ least_bu g = Ok least ∧ top ∈ g ∧ least ∈ g ∧
    ∀ u, u ∈ g → F64.is_nan (g_M3_Position u) = false →
      F64.leb (g_M3_Position u) (g_M3_Position top) = true ∧
      F64.leb (g_M3_Position least) (g_M3_Position u) = true.
Proof. by apply insights_of_sorted_heads. Qed.

Lemma top_and_least_witness :
  ∃ top least,
    top_bu (bu_group F64.add F64.zero sample_frame) = Ok top ∧
    least_bu (bu_group F64.add F64.zero sample_frame) = Ok least ∧
    top ∈ bu_group F64.add F64.zero sample_frame ∧
    least ∈ bu_group F64.add F64.zero sample_frame ∧
    ∀ u, u ∈ bu_group F64.add F64.zero sample_frame →
      F64.is_nan (g_M3_Position u) = false →
      F64.leb (g_M3_Position u) (g_M3_Position top) = true ∧
      F64.leb (g_M3_Position least) (g_M3_Position u) = true.
Proof.
  apply (top_and_least_are_extremal (bu_group F64.add F64.zero sample_frame)).
  vm_compute. discriminate.
Defined.

(** ** When the script completes *)


Lemma render_Ok (df : list (frow float)) (sel : selection) :
  bu_group F64.add F64.zero (df_filtered df sel) ≠ [] →
  ∃ top least,
    top_bu (bu_group F64.add F64.zero (df_filtered df sel)) = Ok top ∧
    least_bu (bu_group F64.add F64.zero (df_filtered df sel)) = Ok least ∧
    render df sel =
      Ok (Report (fsum M3_Position (df_filtered df sel))
                 (fsum BBL_Position (df_filtered df sel))
                 (fsum LBS_Position (df_filtered df sel))
                 (bu_group F64.add F64.zero (df_filtered df sel))
                 (month_group F64.add F64.zero (df_filtered df sel))
                 (factor_data (df_filtered df sel)) (df_filtered df sel)
                 top least (trend (df_filtered df sel))).
Proof.
  intros Hne.
  destruct (insights_of_sorted_heads _ Hne) as (top & least & Ht & Hl & _).
  exists top, least. split; [done|]. split; [done|].
  unfold render. by rewrite Ht, Hl.
Qed.




(** ** The label of a flow month *)

Lemma strftime_b_Y_inj (d1 d2 : date) :
  day d1 = 1 → day d2 = 1 → 1 ≤ month d1 ≤ 12 → 1 ≤ month d2 ≤ 12 →
  strftime_b_Y d1 = strftime_b_Y d2 → d1 = d2.
Proof.
  destruct d1 as [y1 m1 k1], d2 as [y2 m2 k2]. unfold strftime_b_Y. simpl.
  intros -> -> Hm1 Hm2 Heq.
  assert (m1 = 1 ∨ m1 = 2 ∨ m1 = 3 ∨ m1 = 4 ∨ m1 = 5 ∨ m1 = 6 ∨ m1 = 7 ∨ m1 = 8
          ∨ m1 = 9 ∨ m1 = 10 ∨ m1 = 11 ∨ m1 = 12) as H1 by lia.
  assert (m2 = 1 ∨ m2 = 2 ∨ m2 = 3 ∨ m2 = 4 ∨ m2 = 5 ∨ m2 = 6 ∨ m2 = 7 ∨ m2 = 8
          ∨ m2 = 9 ∨ m2 = 10 ∨ m2 = 11 ∨ m2 = 12) as H2 by lia.
  clear Hm1 Hm2.
  repeat destruct H1 as [->|H1]; try subst m1;
    repeat destruct H2 as [->|H2]; try subst m2;
    cbn [month_abbr] in Heq;
    first [discriminate Heq
          |do 2 apply (inj (String.app _)) in Heq; apply (inj pretty) in Heq; by subst].
Qed.

(** X13. The display column of line 61 on a filtered, parsed frame.  Every
    filtered row gets a label, never a missing one, made of the English
    three-letter month and the year; and two filtered rows carry the same
    label only if they have the same flow month. *)
Theorem flow_month_labels {V} (df : list (row (option string) cell V))
    (sel : selection) :
  let rows := df_filtered (parse_flow_month df) sel in
  length (flow_month_label rows) = length rows ∧
  (∀ (n : nat) r, rows !! n = Some r →
     ∃ d, Flow_Month r = Some d ∧
          flow_month_label rows !! n
            = Some (Some (month_abbr (month d) +:+ " " +:+ pretty (year d)))) ∧
  (∀ r1 r2 d1 d2, r1 ∈ rows → r2 ∈ rows →
     Flow_Month r1 = Some d1 → Flow_Month r2 = Some d2 →
     strftime_b_Y d1 = strftime_b_Y d2 → d1 = d2).
Proof.
  intros rows. split; [apply length_fmap|]. split.
  - intros n r Hr.
    assert (r ∈ rows) as [_ Hsel]%elem_of_df_filtered by (by eapply list_elem_of_lookup_2).
    apply in_selection_spec in Hsel as (_ & d & Hd & _).
    exists d. split; [done|].
    unfold flow_month_label. rewrite list_lookup_fmap, Hr. simpl. by rewrite Hd.
  - intros r1 r2 d1 d2 [Hr1 _]%elem_of_df_filtered [Hr2 _]%elem_of_df_filtered Hd1 Hd2.
    destruct (elem_of_parse_flow_month df r1 Hr1) as [?|(x1 & Hx1 & ? & ?)]; [congruence|].
    destruct (elem_of_parse_flow_month df r2 Hr2) as [?|(x2 & Hx2 & ? & ?)]; [congruence|].
    assert (x1 = d1) as -> by congruence. assert (x2 = d2) as -> by congruence.
    by apply strftime_b_Y_inj.
Qed.

Lemma flow_month_labels_witness :
  ∃ d, Some (Date 2024 1 1) = Some d ∧
       flow_month_label
         (df_filtered
            (parse_flow_month [Row (Some "BU-1"%string) (Some "01/2024"%string)
                                   (λ _ : numeric_col, F64.zero)])
            (Selection [Some "BU-1"%string] (Date 2024 1 1) (Date 2024 1 1))) !! 0%nat
       = Some (Some (month_abbr (month d) +:+ " " +:+ pretty (year d))).
Proof.
  apply (proj1 (proj2 (flow_month_labels
           [Row (Some "BU-1"%string) (Some "01/2024"%string) (λ _ : numeric_col, F64.zero)]
           (Selection [Some "BU-1"%string] (Date 2024 1 1) (Date 2024 1 1)))) 0%nat
           (Row (Some "BU-1"%string) (Some (Date 2024 1 1)) (λ _ : numeric_col, F64.zero))).
  reflexivity.
Defined.

Example flow_month_label_example :
  strftime_b_Y (Date 2024 1 1) = "Jan 2024"%string.
Proof. reflexivity. Qed.

(** ** Preparing the frame *)

Lemma unique_from_app_prefix `{Countable K} (seen : gset K) (l1 l2 : list K) :
  unique_from seen l1 `prefix_of` unique_from seen (l1 ++ l2).
Proof.
  revert seen. induction l1 as [|x l1 IH]; intros seen; simpl.
  - apply prefix_nil.
  - case_decide; [apply IH|]. apply prefix_cons, IH.
Qed.

(** X14. Rows added at the end of the table do not change the labels of
    the business units that were there before: every business unit of the
    old table keeps its label in the longer table, and the masked column of
    the longer table starts with the masked column of the old one. *)
Theorem appended_rows_keep_labels `{Countable K} (col more : list K) :
  (∀ c, c ∈ col →
     bu_mapping (unique (col ++ more)) !! c = bu_mapping (unique col) !! c) ∧
  take (length col) (pseudonyms (col ++ more)) = pseudonyms col.
Proof.
  assert (Hkeep : ∀ c, c ∈ col →
            bu_mapping (unique (col ++ more)) !! c = bu_mapping (unique col) !! c).
  { intros c Hc. apply elem_of_unique, list_elem_of_lookup_1 in Hc as [i Hi].
    rewrite (bu_mapping_lookup (unique col) i c (NoDup_unique _) Hi).
    apply bu_mapping_lookup; [apply NoDup_unique|].
    eapply prefix_lookup_Some; [done|]. apply unique_from_app_prefix. }
  split; [done|].
  unfold pseudonyms, series_map. rewrite fmap_app, take_app_length'
    by (by rewrite length_fmap).
  apply list_fmap_ext. intros i c Hi. apply Hkeep. by eapply list_elem_of_lookup_2.
Qed.

Lemma appended_rows_witness :
  bu_mapping (unique (["Acme"; "Globex"] ++ ["Initech"; "Acme"])) !! "Globex"
    = bu_mapping (unique ["Acme"; "Globex"]) !! "Globex".
Proof.
  apply (proj1 (appended_rows_keep_labels ["Acme"; "Globex"] ["Initech"; "Acme"])).
  apply list_elem_of_further, list_elem_of_here.
Defined.

Lemma Int_BU_load_data {C M} (raw : list (row C M cell)) :
  Int_BU <$> load_data raw = Int_BU <$> raw.
Proof. unfold load_data. by rewrite <-list_fmap_compose. Qed.

Lemma Int_BU_parse_flow_month {C V} (df : list (row C cell V)) :
  Int_BU <$> parse_flow_month df = Int_BU <$> df.
Proof. unfold parse_flow_month. by rewrite <-list_fmap_compose. Qed.

Lemma parse_flow_month_load_data {C} (raw : list (row C cell cell)) :
  parse_flow_month (load_data raw) = load_data (parse_flow_month raw).
Proof. unfold parse_flow_month, load_data. by rewrite <-!list_fmap_compose. Qed.

Lemma pseudonymize_load_data `{Countable K} {M} (raw : list (row K M cell)) :
  pseudonymize (load_data raw) = load_data (pseudonymize raw).
Proof.
  unfold pseudonymize. rewrite Int_BU_load_data.
  unfold load_data. by rewrite <-!list_fmap_compose.
Qed.

Lemma parse_flow_month_pseudonymize `{Countable K} {V} (df : list (row K cell V)) :
  parse_flow_month (pseudonymize df) = pseudonymize (parse_flow_month df).
Proof.
  unfold pseudonymize at 2. rewrite Int_BU_parse_flow_month.
  unfold parse_flow_month, pseudonymize. by rewrite <-!list_fmap_compose.
Qed.

(** X15. The three steps that prepare the frame each rewrite columns of
    their own, so they can be taken in any order: coercing the numbers,
    masking the business units and reading the flow months commute, and the
    prepared frame has one row for every row of the CSV. *)
Theorem preparation_steps_commute `{Countable K} (raw : list (row K cell cell)) :
  pseudonymize (load_data raw) = load_data (pseudonymize raw) ∧
  parse_flow_month (load_data raw) = load_data (parse_flow_month raw) ∧
  parse_flow_month (pseudonymize raw) = pseudonymize (parse_flow_month raw) ∧
  prepare raw = load_data (pseudonymize (parse_flow_month raw)) ∧
  length (prepare raw) = length raw.
Proof.
  split; [apply pseudonymize_load_data|].
  split; [apply parse_flow_month_load_data|].
  split; [apply parse_flow_month_pseudonymize|]. split.
  - unfold prepare.
    by rewrite pseudonymize_load_data, parse_flow_month_load_data,
      parse_flow_month_pseudonymize.
  - unfold prepare, parse_flow_month, pseudonymize, load_data.
    by rewrite !length_fmap.
Qed.

(** ** White space around a number *)




